(** * une_tondeuse: a mower on a bounded grid

    Shallow embedding of [tondeuse/__init__.py] and [tondeuse/mow.py].

    - [Direction] and [Rotation] are the two [IntEnum]s, with their integer
      values and the two lookups the code performs on them
      ([Direction(v)] by value, [Rotation[name]] by name).
    - [Position] and [Grid] are records over [Z] (Python integers are
      unbounded).
    - [Mow] is an object whose methods mutate it and may raise.  A method is
      a computation [M A := Mow -> result A * Mow]: the state component is
      the object after the call, also when the call raised, since a Python
      exception does not roll back the assignments made before it. *)

From Stdlib Require Import ZArith Bool String Ascii List Lia.
From Stdlib Require Import DecimalString.
From Stdlib Require DecimalZ DecimalPos.
Import ListNotations.

Local Open Scope string_scope.
Local Open Scope Z_scope.

(** ** tondeuse/__init__.py *)

Inductive Direction : Type := N | E | S | W.

Inductive Rotation : Type := G | D.

(** The integer value of an [IntEnum] member. *)
Definition Direction_value (d : Direction) : Z :=
  match d with
  | N => 0
  | E => 1
  | S => 2
  | W => 3
  end.

Definition Rotation_value (r : Rotation) : Z :=
  match r with
  | G => -1
  | D => 1
  end.

(** [d.name] *)
Definition Direction_name (d : Direction) : string :=
  match d with
  | N => "N"
  | E => "E"
  | S => "S"
  | W => "W"
  end.

(** Exceptions the modelled code can raise. *)
Inductive exn : Type :=
| GridPlacementException (msg : string)
| ValueError
| KeyError.

Inductive result (A : Type) : Type :=
| Return (a : A)
| Raise (e : exn).

Arguments Return {A} a.
Arguments Raise {A} e.

(** [Direction(v)]: lookup of a member by value, [ValueError] when [v] is
    not the value of a member. *)
Definition Direction_call (v : Z) : result Direction :=
  if v =? 0 then Return N
  else if v =? 1 then Return E
  else if v =? 2 then Return S
  else if v =? 3 then Return W
  else Raise ValueError.

(** [Rotation[name]]: lookup of a member by name, [KeyError] otherwise. *)
Definition Rotation_getitem (name : string) : result Rotation :=
  if String.eqb name "G" then Return G
  else if String.eqb name "D" then Return D
  else Raise KeyError.

(** ** tondeuse/mow.py *)

Record Position : Type := mkPosition { _x : Z; _y : Z }.

(** [Position.__add__] *)
Definition Position_add (self pos : Position) : Position :=
  mkPosition (_x self + _x pos) (_y self + _y pos).

(** [Position.coordinate] *)
Definition coordinate (self : Position) : Z * Z := (_x self, _y self).

Record Grid : Type := mkGrid {
  _x_min : Z;
  _y_min : Z;
  _x_max : Z;
  _y_max : Z
}.

(** [Grid.is_inbound]; [a <= x <= b] is the chained comparison
    [a <= x and x <= b]. *)
Definition is_inbound (self : Grid) (pos : Position) : bool :=
  let '(x, y) := coordinate pos in
  ((_x_min self <=? x) && (x <=? _x_max self))
  && ((_y_min self <=? y) && (y <=? _y_max self)).

Record Mow : Type := mkMow {
  _position : Position;
  _direction : Direction;
  _grid : option Grid
}.

(** [Mow.__init__] *)
Definition Mow_init (position : Position) (direction : Direction) : Mow :=
  mkMow position direction None.

(** *** Methods as computations on the object *)

Definition M (A : Type) : Type := Mow -> result A * Mow.

Definition ret {A : Type} (a : A) : M A := fun self => (Return a, self).

Definition raise {A : Type} (e : exn) : M A := fun self => (Raise e, self).

Definition bind {A B : Type} (c : M A) (k : A -> M B) : M B :=
  fun self =>
    match c self with
    | (Return a, self') => k a self'
    | (Raise e, self') => (Raise e, self')
    end.

(** A pure lookup that may raise, used inside a method. *)
Definition lift {A : Type} (r : result A) : M A := fun self => (r, self).

Definition get_self : M Mow := fun self => (Return self, self).

Declare Scope mow_scope.
Delimit Scope mow_scope with mow.
Notation "x <- c ;; k" := (bind c (fun x => k))
  (at level 61, c at next level, right associativity) : mow_scope.
Notation "c ;; k" := (bind c (fun _ => k))
  (at level 61, right associativity) : mow_scope.
Local Open Scope mow_scope.

(** The object after a call, and what the call returned or raised. *)
Definition state_after {A : Type} (c : M A) (self : Mow) : Mow := snd (c self).
Definition outcome {A : Type} (c : M A) (self : Mow) : result A := fst (c self).

(** [Mow.__str__]; [str_int] is the decimal rendering of an [int]. *)
Definition str_int (z : Z) : string := NilZero.string_of_int (Z.to_int z).

Definition Mow_str (self : Mow) : string :=
  let '(x, y) := coordinate (_position self) in
  (str_int x ++ " " ++ str_int y ++ " " ++ Direction_name (_direction self))%string.

(** [position] property: getter and setter. *)
Definition position : M Position :=
  fun self => (Return (_position self), self).

Definition position_setter (pos : Position) : M unit :=
  fun self => (Return tt, mkMow pos (_direction self) (_grid self)).

(** [direction] property: getter and setter. *)
Definition direction : M Direction :=
  fun self => (Return (_direction self), self).

Definition direction_setter (direction : Direction) : M unit :=
  fun self => (Return tt, mkMow (_position self) direction (_grid self)).

(** [Mow.rotate] *)
Definition rotate (way : Rotation) : M unit :=
  self <- get_self ;;
  d <- lift (Direction_call
               ((Direction_value (_direction self) + Rotation_value way) mod 4)) ;;
  fun self' => (Return tt, mkMow (_position self') d (_grid self')).

(** [Mow.associate_to_grid] *)
Definition associate_to_grid (grid : Grid) : M unit :=
  self <- get_self ;;
  if negb (is_inbound grid (_position self)) then
    raise (GridPlacementException "Position does not belong to grid")
  else
    match _grid self with
    | Some _ => raise (GridPlacementException "One grid is already set")
    | None =>
        fun self' =>
          (Return tt, mkMow (_position self') (_direction self') (Some grid))
    end.

(** [Mow.advance] *)
Definition advance : M unit :=
  self <- get_self ;;
  match _grid self with
  | None => raise (GridPlacementException "No associated grid")
  | Some grid =>
      let p :=
        match _direction self with
        | N => Position_add (_position self) (mkPosition 0 1)
        | E => Position_add (_position self) (mkPosition 1 0)
        | S => Position_add (_position self) (mkPosition 0 (-1))
        | W => Position_add (_position self) (mkPosition (-1) 0)
        end in
      if is_inbound grid p then position_setter p else ret tt
  end.

(** One iteration of the loop of [Mow.execute_path] on the character [i]:
    the [match] with the cases ["G" | "D"], ["A"] and the wildcard.  A
    character outside ASCII is one or more bytes here, none of which is an
    instruction, so it falls to the wildcard as in the source. *)
Definition execute_instruction (i : ascii) : M unit :=
  if (Ascii.eqb i "G" || Ascii.eqb i "D")%bool then
    way <- lift (Rotation_getitem (String i EmptyString)) ;;
    rotate way
  else if Ascii.eqb i "A" then advance
  else ret tt.

(** [Mow.execute_path]: the [for] loop over the characters of [path]; an
    exception raised in an iteration leaves the loop. *)
Fixpoint execute_path (path : string) : M unit :=
  match path with
  | EmptyString => ret tt
  | String i rest => execute_instruction i ;; execute_path rest
  end.

(** *** Callers *)

(** The calls of the public interface that mutate a mower. *)
Inductive operation : Type :=
| OpRotate (way : Rotation)
| OpAdvance
| OpExecutePath (path : string)
| OpSetPosition (pos : Position)
| OpSetDirection (direction : Direction).

Definition perform (op : operation) : M unit :=
  match op with
  | OpRotate way => rotate way
  | OpAdvance => advance
  | OpExecutePath path => execute_path path
  | OpSetPosition pos => position_setter pos
  | OpSetDirection d => direction_setter d
  end.

(** A caller that issues the calls one after the other on the same object
    and carries on whatever a call returned or raised. *)
Definition run_operations (ops : list operation) (self : Mow) : Mow :=
  fold_left (fun m op => state_after (perform op) m) ops self.

(** The test [test_instruction]: build a mower, put it on the grid, run the
    path, print it. *)
Definition run_scenario (pos : Position) (d : Direction) (g : Grid)
    (path : string) : result unit * string :=
  let '(r, m) := (associate_to_grid g ;; execute_path path) (Mow_init pos d) in
  (r, Mow_str m).

(** ** Vocabulary of the specification *)

(** Unit step of a heading, as tabulated in the specification. *)
Definition step_vector (d : Direction) : Position :=
  match d with
  | N => mkPosition 0 1
  | E => mkPosition 1 0
  | S => mkPosition 0 (-1)
  | W => mkPosition (-1) 0
  end.

(** The heading facing the other way. *)
Definition opposite (d : Direction) : Direction :=
  match d with
  | N => S
  | E => W
  | S => N
  | W => E
  end.

(** A bound mower stands inside its grid. *)
Definition on_grid (g : Grid) (m : Mow) : Prop :=
  _grid m = Some g /\ is_inbound g (_position m) = true.

(** The characters [execute_path] acts on. *)
Definition recognized (c : ascii) : bool :=
  (Ascii.eqb c "G" || Ascii.eqb c "D" || Ascii.eqb c "A")%bool.

(** [path] with the characters that are not instructions removed. *)
Fixpoint only_instructions (path : string) : string :=
  match path with
  | EmptyString => EmptyString
  | String c rest =>
      if recognized c then String c (only_instructions rest)
      else only_instructions rest
  end.

(** [c] occurs in [path]. *)
Fixpoint occurs (c : ascii) (path : string) : bool :=
  match path with
  | EmptyString => false
  | String c' rest => (Ascii.eqb c c' || occurs c rest)%bool
  end.

(** *** Further callers and measures *)

(** A call of the public interface: [associate_to_grid] or one of the
    calls of [operation]. *)
Inductive call : Type :=
| CallAssociate (grid : Grid)
| CallOperation (op : operation).

Definition perform_call (c : call) : M unit :=
  match c with
  | CallAssociate grid => associate_to_grid grid
  | CallOperation op => perform op
  end.

(** A caller that issues the calls in turn and catches what they raise. *)
Definition run_calls (calls : list call) (self : Mow) : Mow :=
  fold_left (fun m c => state_after (perform_call c) m) calls self.

(** [n] calls of the same method in a row. *)
Fixpoint repeat_call (n : nat) (c : M unit) : M unit :=
  match n with
  | O => ret tt
  | Datatypes.S n' => c ;; repeat_call n' c
  end.

(** How many times the character [c] stands in [path]. *)
Fixpoint count_char (c : ascii) (path : string) : Z :=
  match path with
  | EmptyString => 0
  | String c' rest => (if Ascii.eqb c c' then 1 else 0) + count_char c rest
  end.

(** Distance in cells between two positions, along the axes. *)
Definition cells_between (p q : Position) : Z :=
  Z.abs (_x q - _x p) + Z.abs (_y q - _y p).

(** Where [n] steps from [p] towards [d] end on the grid [g] when no step
    may leave it. *)
Definition stopped_at_edge (g : Grid) (p : Position) (d : Direction) (n : Z)
    : Position :=
  match d with
  | N => mkPosition (_x p) (Z.min (_y p + n) (_y_max g))
  | E => mkPosition (Z.min (_x p + n) (_x_max g)) (_y p)
  | S => mkPosition (_x p) (Z.max (_y p - n) (_y_min g))
  | W => mkPosition (Z.max (_x p - n) (_x_min g)) (_y p)
  end.

(** ** Sample objects *)

(** The grid of the tests. *)
Definition lawn : Grid := mkGrid 0 0 5 5.

(** A mower bound to [lawn], one cell from its west edge. *)
Definition parked : Mow := mkMow (mkPosition 1 1) W (Some lawn).

(** A mower bound to [lawn], on its west edge and facing it. *)
Definition at_west_edge : Mow := mkMow (mkPosition 0 1) W (Some lawn).

(** A mower that was never put on a grid. *)
Definition unbound : Mow := Mow_init (mkPosition 6 6) W.

(** * Properties *)

(** ** Rendering *)

Example str_int_examples :
  str_int 0 = "0" /\ str_int 12 = "12" /\ str_int (-7) = "-7".
Proof. repeat split. Qed.

(** ** Grid *)

Lemma is_inbound_true (g : Grid) (p : Position) :
  is_inbound g p = true <->
  (_x_min g <= _x p <= _x_max g) /\ (_y_min g <= _y p <= _y_max g).
Proof.
  unfold is_inbound, coordinate.
  rewrite !andb_true_iff, !Z.leb_le. tauto.
Qed.

Lemma is_inbound_false (g : Grid) (p : Position) :
  is_inbound g p = false <->
  (_x p < _x_min g \/ _x_max g < _x p \/ _y p < _y_min g \/ _y_max g < _y p).
Proof.
  rewrite <- not_true_iff_false, is_inbound_true. lia.
Qed.

(** C9: [is_inbound] answers [true] exactly on the closed rectangle, so
    the four boundary lines are inside and a coordinate strictly outside
    its interval gives [false]; it is a total function of the grid and the
    position, which it leaves as they are. *)
Theorem is_inbound_closed_rectangle (g : Grid) (p : Position) :
  (is_inbound g p = true <->
   (_x_min g <= _x p <= _x_max g) /\ (_y_min g <= _y p <= _y_max g))
  /\ (is_inbound g p = false <->
      (_x p < _x_min g \/ _x_max g < _x p \/
       _y p < _y_min g \/ _y_max g < _y p))
  /\ (_x_min g <= _x_max g /\ _y_min g <= _y_max g ->
      is_inbound g (mkPosition (_x_min g) (_y_min g)) = true /\
      is_inbound g (mkPosition (_x_min g) (_y_max g)) = true /\
      is_inbound g (mkPosition (_x_max g) (_y_min g)) = true /\
      is_inbound g (mkPosition (_x_max g) (_y_max g)) = true).
Proof.
  split; [apply is_inbound_true|].
  split; [apply is_inbound_false|].
  intros [Hx Hy]. rewrite !is_inbound_true. simpl. lia.
Qed.

(** ** Rotation *)

Lemma Direction_value_range (d : Direction) : 0 <= Direction_value d < 4.
Proof. destruct d; simpl; lia. Qed.

Lemma Direction_value_inj (d1 d2 : Direction) :
  Direction_value d1 = Direction_value d2 -> d1 = d2.
Proof. destruct d1, d2; simpl; intros H; try reflexivity; discriminate H. Qed.

(** [Direction(v)] finds a member exactly on the four values. *)
Lemma Direction_call_member (v : Z) :
  0 <= v < 4 ->
  exists d, Direction_call v = Return d /\ Direction_value d = v.
Proof.
  intros Hv.
  assert (Hcases : v = 0 \/ v = 1 \/ v = 2 \/ v = 3) by lia.
  destruct Hcases as [-> | [-> | [-> | ->]]];
    [exists N | exists E | exists S | exists W]; split; reflexivity.
Qed.

Lemma Direction_call_value (d : Direction) :
  Direction_call (Direction_value d) = Return d.
Proof. destruct d; reflexivity. Qed.

(** What [rotate] does, in one equation: it returns, and only the heading
    changes. *)
Lemma rotate_returns (way : Rotation) (m : Mow) :
  exists d,
    rotate way m = (Return tt, mkMow (_position m) d (_grid m)) /\
    Direction_value d =
      (Direction_value (_direction m) + Rotation_value way) mod 4.
Proof.
  destruct (Direction_call_member
              ((Direction_value (_direction m) + Rotation_value way) mod 4))
    as [d [Hcall Hval]].
  - apply Z.mod_pos_bound. lia.
  - exists d. split; [|exact Hval].
    unfold rotate, bind, get_self, lift. rewrite Hcall. reflexivity.
Qed.

(** C3: [rotate] never raises; the new heading is the member whose value is
    the value of the old one plus the value of the rotation ([G] is -1, [D]
    is +1) modulo 4, a value of [0..3] also when the sum is negative, so the
    heading [N] turned to the left is [W]; position and grid are untouched. *)
Theorem rotate_modular (m : Mow) (way : Rotation) :
  Rotation_value G = -1 /\ Rotation_value D = 1 /\
  (exists d,
     rotate way m = (Return tt, mkMow (_position m) d (_grid m)) /\
     Direction_value d =
       (Direction_value (_direction m) + Rotation_value way) mod 4 /\
     0 <= Direction_value d < 4) /\
  (Direction_value N + Rotation_value G = -1 /\
   rotate G (mkMow (_position m) N (_grid m))
   = (Return tt, mkMow (_position m) W (_grid m))).
Proof.
  split; [reflexivity|]. split; [reflexivity|]. split.
  - destruct (rotate_returns way m) as [d [Hrot Hval]].
    exists d. repeat split; try assumption; apply Direction_value_range.
  - split; reflexivity.
Qed.

(** C8: two turns to the right give the opposite heading, a turn to the
    left undoes a turn to the right and conversely; no call raises and the
    position (and the grid) stay as they were. *)
Theorem rotate_twice_and_back (m : Mow) :
  (rotate D ;; rotate D) m
  = (Return tt, mkMow (_position m) (opposite (_direction m)) (_grid m)) /\
  (rotate G ;; rotate D) m = (Return tt, m) /\
  (rotate D ;; rotate G) m = (Return tt, m) /\
  opposite N = S /\ opposite S = N /\ opposite E = W /\ opposite W = E.
Proof.
  destruct m as [p d g]. destruct d; repeat split; reflexivity.
Qed.

(** ** Association *)



(** C5: on a mower that holds a grid, [associate_to_grid] raises
    [GridPlacementException] whatever the grid given, and the mower keeps
    its grid, position and heading. *)
Theorem associate_to_grid_one_shot (m : Mow) (g g' : Grid) :
  _grid m = Some g ->
  exists msg,
    associate_to_grid g' m = (Raise (GridPlacementException msg), m).
Proof.
  intros Hg. unfold associate_to_grid, bind, get_self, raise.
  destruct (is_inbound g' (_position m)); simpl.
  - rewrite Hg. eexists. reflexivity.
  - eexists. reflexivity.
Qed.

Lemma associate_to_grid_one_shot_witness :
  _grid parked = Some lawn /\
  exists msg,
    associate_to_grid (mkGrid (-3) (-3) 9 9) parked
    = (Raise (GridPlacementException msg), parked).
Proof.
  split; [reflexivity|].
  apply (associate_to_grid_one_shot parked lawn (mkGrid (-3) (-3) 9 9)).
  reflexivity.
Defined.

(** ** Advance *)

(** The cell [advance] tries is the position plus the unit step of the
    heading. *)
Lemma advance_bound (m : Mow) (g : Grid) :
  _grid m = Some g ->
  advance m =
    let p := Position_add (_position m) (step_vector (_direction m)) in
    if is_inbound g p
    then (Return tt, mkMow p (_direction m) (Some g))
    else (Return tt, m).
Proof.
  destruct m as [p d gr]. simpl. intros ->.
  unfold advance, bind, get_self. simpl.
  destruct d; simpl step_vector;
    match goal with |- context [is_inbound g ?q] =>
      destruct (is_inbound g q) end;
    reflexivity.
Qed.

Lemma advance_unbound (m : Mow) :
  _grid m = None ->
  advance m = (Raise (GridPlacementException "No associated grid"), m).
Proof.
  intros Hg. unfold advance, bind, get_self, raise. rewrite Hg. reflexivity.
Qed.

(** C4: when the cell in front of a bound mower is outside its grid,
    [advance] returns normally and the mower is exactly as before. *)
Theorem advance_off_grid_noop (m : Mow) (g : Grid) :
  _grid m = Some g ->
  is_inbound g (Position_add (_position m) (step_vector (_direction m)))
  = false ->
  advance m = (Return tt, m).
Proof.
  intros Hg Hout. rewrite (advance_bound m g Hg). cbv zeta.
  rewrite Hout. reflexivity.
Qed.

Lemma advance_off_grid_noop_witness :
  advance at_west_edge = (Return tt, at_west_edge).
Proof.
  apply (advance_off_grid_noop at_west_edge lawn); reflexivity.
Defined.

(** C6: [advance] raises exactly when the mower has no grid; what it raises
    is then [GridPlacementException], the mower is left as it was, and it
    can still be put on a grid and advanced. *)
Theorem advance_raises_iff_unbound (m : Mow) :
  ((exists e, outcome advance m = Raise e) <-> _grid m = None) /\
  (forall e, outcome advance m = Raise e ->
     e = GridPlacementException "No associated grid" /\
     state_after advance m = m) /\
  (forall g, _grid m = None -> is_inbound g (_position m) = true ->
     outcome (associate_to_grid g ;; advance) (state_after advance m)
     = Return tt).
Proof.
  unfold outcome, state_after.
  destruct (_grid m) as [g|] eqn:Hg.
  - rewrite (advance_bound m g Hg). cbv zeta.
    destruct (is_inbound g _); simpl; repeat split;
      try discriminate; intros [e He]; discriminate He.
  - rewrite (advance_unbound m Hg). simpl. split; [|split].
    + split; [reflexivity | eexists; reflexivity].
    + intros e He. injection He as <-. split; reflexivity.
    + intros g _ Hin.
      cbv [bind associate_to_grid get_self raise].
      rewrite Hin, Hg. cbv [negb].
      set (m' := mkMow (_position m) (_direction m) (Some g)).
      rewrite (advance_bound m' g eq_refl). cbv zeta.
      destruct (is_inbound g (Position_add _ _)); reflexivity.
Qed.

(** ** Path execution *)

Lemma bind_ret_tt (c : M unit) (m : Mow) : (c ;; ret tt) m = c m.
Proof.
  unfold bind, ret. destruct (c m) as [[[]|e] m']; reflexivity.
Qed.

Lemma execute_instruction_G (m : Mow) : execute_instruction "G" m = rotate G m.
Proof. reflexivity. Qed.

Lemma execute_instruction_D (m : Mow) : execute_instruction "D" m = rotate D m.
Proof. reflexivity. Qed.

Lemma execute_instruction_A (m : Mow) : execute_instruction "A" m = advance m.
Proof. reflexivity. Qed.

Lemma execute_instruction_other (c : ascii) (m : Mow) :
  recognized c = false -> execute_instruction c m = (Return tt, m).
Proof.
  unfold recognized, execute_instruction. intros H.
  apply orb_false_iff in H. destruct H as [HGD HA].
  rewrite HGD, HA. reflexivity.
Qed.

(** The three instructions, and nothing else, are recognized. *)
Lemma recognized_cases (c : ascii) :
  recognized c = true ->
  c = "G"%char \/ c = "D"%char \/ c = "A"%char.
Proof.
  unfold recognized. rewrite !orb_true_iff, !Ascii.eqb_eq. tauto.
Qed.

(** Running a concatenation is running the first part, then the second. *)
Lemma execute_path_app (p1 p2 : string) (m : Mow) :
  execute_path (p1 ++ p2) m = (execute_path p1 ;; execute_path p2) m.
Proof.
  revert m. induction p1 as [|c rest IH]; intros m; simpl.
  - reflexivity.
  - unfold bind.
    destruct (execute_instruction c m) as [[[]|e] m'].
    + rewrite IH. reflexivity.
    + reflexivity.
Qed.

Lemma execute_path_only_instructions (path : string) (m : Mow) :
  execute_path (only_instructions path) m = execute_path path m.
Proof.
  revert m. induction path as [|c rest IH]; intros m; simpl.
  - reflexivity.
  - destruct (recognized c) eqn:Hc; simpl.
    + unfold bind. destruct (execute_instruction c m) as [[[]|e] m'].
      * apply IH.
      * reflexivity.
    + unfold bind. rewrite (execute_instruction_other c m Hc). apply IH.
Qed.

(** C7: [execute_path] runs the characters from left to right (the path
    [p1 ++ p2] is [p1] and then [p2]); ["G"] is a turn to the left, ["D"] a
    turn to the right, ["A"] an advance; any other character returns
    normally and changes nothing; hence a path and the same path without
    its unrecognized characters end alike, in the object and in what was
    returned or raised. *)
Theorem execute_path_skips_unrecognized (path : string) (m : Mow) :
  (forall p1 p2 : string,
     execute_path (p1 ++ p2) m = (execute_path p1 ;; execute_path p2) m) /\
  (forall (c : ascii) (rest : string),
     execute_path (String c rest) m
     = (execute_path (String c "") ;; execute_path rest) m) /\
  execute_path "G" m = rotate G m /\
  execute_path "D" m = rotate D m /\
  execute_path "A" m = advance m /\
  (forall c : ascii,
     c <> "G"%char -> c <> "D"%char -> c <> "A"%char ->
     execute_path (String c "") m = (Return tt, m)) /\
  execute_path (only_instructions path) m = execute_path path m.
Proof.
  split; [intros p1 p2; apply execute_path_app|].
  split; [intros c rest; apply (execute_path_app (String c "") rest)|].
  split; [apply (bind_ret_tt (rotate G))|].
  split; [apply (bind_ret_tt (rotate D))|].
  split; [apply (bind_ret_tt advance)|].
  split; [|apply execute_path_only_instructions].
  intros c HG HD HA. simpl. rewrite bind_ret_tt.
  apply execute_instruction_other.
  destruct (recognized c) eqn:Hc; [|reflexivity].
  destruct (recognized_cases c Hc) as [H | [H | H]]; contradiction.
Qed.

(** A path without ["A"] only turns the mower: it returns normally, and
    position and grid are as before. *)
Lemma execute_path_without_advance (pre : string) (m : Mow) :
  occurs "A" pre = false ->
  exists d,
    execute_path pre m = (Return tt, mkMow (_position m) d (_grid m)).
Proof.
  revert m. induction pre as [|c rest IH]; intros m Hocc.
  - exists (_direction m). destruct m; reflexivity.
  - simpl in Hocc. apply orb_false_iff in Hocc. destruct Hocc as [Hc Hrest].
    simpl execute_path. unfold bind.
    destruct (recognized c) eqn:Hrec.
    + destruct (recognized_cases c Hrec) as [-> | [-> | ->]];
        [ rewrite execute_instruction_G;
          destruct (rotate_returns G m) as [d [-> _]]
        | rewrite execute_instruction_D;
          destruct (rotate_returns D m) as [d [-> _]]
        | discriminate Hc ];
        destruct (IH (mkMow (_position m) d (_grid m)) Hrest) as [d' ->];
        exists d'; reflexivity.
    + rewrite (execute_instruction_other c m Hrec).
      apply (IH m Hrest).
Qed.



(** The state reached in the example above: two turns to the left from
    [W] give [E], and the turns after the ["A"] are not made. *)
Example execute_path_unbound_example :
  execute_path "GXGADDA" unbound
  = (Raise (GridPlacementException "No associated grid"),
     mkMow (mkPosition 6 6) E None).
Proof. reflexivity. Qed.

(** ** The mower stays on its grid *)











(** ** The reference scenarios *)

(** C1: the two scenarios of [test_instruction] run without raising and
    print ["1 3 N"] and ["5 1 E"]. *)
Theorem reference_scenarios :
  run_scenario (mkPosition 1 2) N lawn "GAGAGAGAA" = (Return tt, "1 3 N") /\
  run_scenario (mkPosition 3 3) E lawn "AADAADADDA" = (Return tt, "5 1 E").
Proof. split; reflexivity. Qed.

(** The same two runs, state by state. *)
Example reference_scenarios_states :
  (associate_to_grid lawn ;; execute_path "GAGAGAGAA")
    (Mow_init (mkPosition 1 2) N)
  = (Return tt, mkMow (mkPosition 1 3) N (Some lawn)) /\
  (associate_to_grid lawn ;; execute_path "AADAADADDA")
    (Mow_init (mkPosition 3 3) E)
  = (Return tt, mkMow (mkPosition 5 1) E (Some lawn)).
Proof. split; reflexivity. Qed.

(** The scenario of [test_move]: no grid, a grid the mower is outside of,
    the association, a second association, a step to the edge and a step
    against it. *)
Example test_move_trace :
  outcome advance unbound = Raise (GridPlacementException "No associated grid") /\
  associate_to_grid lawn unbound
  = (Raise (GridPlacementException "Position does not belong to grid"),
     unbound) /\
  (position_setter (mkPosition 1 1) ;; associate_to_grid lawn) unbound
  = (Return tt, parked) /\
  outcome (associate_to_grid lawn) parked
  = Raise (GridPlacementException "One grid is already set") /\
  advance parked = (Return tt, at_west_edge) /\
  advance at_west_edge = (Return tt, at_west_edge).
Proof. repeat split. Qed.

(** * Further properties of the code *)

(** ** Positions and grids *)

(** X1: [Position.__add__] is addition coordinate by coordinate: it commutes,
    associates, has (0,0) as neutral element, and the sum's [coordinate]
    is the pair of sums. *)
Theorem Position_add_monoid (p q r : Position) :
  Position_add p q = Position_add q p /\
  Position_add (Position_add p q) r = Position_add p (Position_add q r) /\
  Position_add p (mkPosition 0 0) = p /\
  coordinate (Position_add p q)
  = (fst (coordinate p) + fst (coordinate q),
     snd (coordinate p) + snd (coordinate q)).
Proof.
  destruct p as [px py], q as [qx qy], r as [rx ry].
  unfold Position_add, coordinate; simpl.
  repeat split; f_equal; lia.
Qed.

(** X2: A grid built with a minimum above its maximum contains no position,
    so [associate_to_grid] on it raises for every mower and changes
    nothing. *)
Theorem inverted_grid_is_empty (g : Grid) (m : Mow) :
  _x_max g < _x_min g \/ _y_max g < _y_min g ->
  (forall p, is_inbound g p = false) /\
  associate_to_grid g m
  = (Raise (GridPlacementException "Position does not belong to grid"), m).
Proof.
  intros Hinv.
  assert (Hempty : forall p, is_inbound g p = false).
  { intros p. apply is_inbound_false. lia. }
  split; [exact Hempty|].
  unfold associate_to_grid, bind, get_self, raise.
  rewrite Hempty. reflexivity.
Qed.

Lemma inverted_grid_is_empty_witness :
  (forall p, is_inbound (mkGrid 5 0 0 5) p = false) /\
  associate_to_grid (mkGrid 5 0 0 5) unbound
  = (Raise (GridPlacementException "Position does not belong to grid"),
     unbound).
Proof.
  apply (inverted_grid_is_empty (mkGrid 5 0 0 5) unbound).
  left. simpl. lia.
Defined.

(** ** The enumerations *)

(** X3: [Direction(v)] and [.value] are inverse of each other: the lookup
    returns the member of value [v], and raises [ValueError] exactly when
    [v] is outside 0..3. *)
Theorem Direction_call_round_trip (v : Z) (d : Direction) :
  Direction_call (Direction_value d) = Return d /\
  (Direction_call v = Return d <-> Direction_value d = v) /\
  (Direction_call v = Raise ValueError <-> v < 0 \/ 3 < v).
Proof.
  split; [apply Direction_call_value|]. split.
  - split.
    + intros Hcall.
      destruct (Z_lt_le_dec v 0) as [Hneg|Hpos];
        [|destruct (Z_lt_le_dec 3 v) as [Hbig|Hsmall]].
      * unfold Direction_call in Hcall.
        destruct (Z.eqb_spec v 0); [lia|]. destruct (Z.eqb_spec v 1); [lia|].
        destruct (Z.eqb_spec v 2); [lia|]. destruct (Z.eqb_spec v 3); [lia|].
        discriminate Hcall.
      * unfold Direction_call in Hcall.
        destruct (Z.eqb_spec v 0); [lia|]. destruct (Z.eqb_spec v 1); [lia|].
        destruct (Z.eqb_spec v 2); [lia|]. destruct (Z.eqb_spec v 3); [lia|].
        discriminate Hcall.
      * destruct (Direction_call_member v) as [d' [Hd' Hv]]; [lia|].
        rewrite Hd' in Hcall. injection Hcall as <-. exact Hv.
    + intros <-. apply Direction_call_value.
  - split.
    + intros Hcall.
      destruct (Z_lt_le_dec v 0) as [Hneg|Hpos]; [left; exact Hneg|].
      destruct (Z_lt_le_dec 3 v) as [Hbig|Hsmall]; [right; exact Hbig|].
      destruct (Direction_call_member v) as [d' [Hd' _]]; [lia|].
      rewrite Hd' in Hcall. discriminate Hcall.
    + intros Hout. unfold Direction_call.
      destruct (Z.eqb_spec v 0); [lia|]. destruct (Z.eqb_spec v 1); [lia|].
      destruct (Z.eqb_spec v 2); [lia|]. destruct (Z.eqb_spec v 3); [lia|].
      reflexivity.
Qed.

(** X4: Four turns the same way bring the heading back, and three turns one
    way are one turn the other way. *)
Theorem rotate_full_turn (m : Mow) (way : Rotation) :
  repeat_call 4 (rotate way) m = (Return tt, m) /\
  repeat_call 3 (rotate G) m = rotate D m /\
  repeat_call 3 (rotate D) m = rotate G m.
Proof.
  destruct m as [p d g]. destruct d, way; repeat split; reflexivity.
Qed.

(** ** Association, case by case *)

(** X5: [associate_to_grid] returns exactly when the position is inside the
    grid and the mower has no grid yet; it then records the grid and
    nothing else.  When it raises, the mower is as before; the position is
    tested first, so a mower outside the given grid gets the message about
    the position also when it is already bound. *)
Theorem associate_to_grid_cases (g : Grid) (m : Mow) :
  (outcome (associate_to_grid g) m = Return tt <->
   is_inbound g (_position m) = true /\ _grid m = None) /\
  (outcome (associate_to_grid g) m = Return tt ->
   state_after (associate_to_grid g) m
   = mkMow (_position m) (_direction m) (Some g)) /\
  (forall e, outcome (associate_to_grid g) m = Raise e ->
     state_after (associate_to_grid g) m = m) /\
  (is_inbound g (_position m) = false ->
   outcome (associate_to_grid g) m
   = Raise (GridPlacementException "Position does not belong to grid")) /\
  (is_inbound g (_position m) = true -> _grid m <> None ->
   outcome (associate_to_grid g) m
   = Raise (GridPlacementException "One grid is already set")).
Proof.
  unfold outcome, state_after, associate_to_grid, bind, get_self, raise.
  destruct (is_inbound g (_position m)); destruct (_grid m) as [g0|];
    simpl; repeat split;
    try discriminate; try reflexivity; try tauto;
    try (intros [H1 H2]; discriminate);
    try (intros _ H; exfalso; apply H; reflexivity).
Qed.

(** ** One step *)

(** [advance] changes neither heading nor grid, whether it returns or
    raises. *)
Lemma advance_keeps_heading_and_grid (m : Mow) :
  _direction (state_after advance m) = _direction m /\
  _grid (state_after advance m) = _grid m.
Proof.
  unfold state_after. destruct (_grid m) as [g|] eqn:Hg.
  - rewrite (advance_bound m g Hg). cbv zeta.
    destruct (is_inbound g (Position_add _ _)); simpl; auto.
  - rewrite (advance_unbound m Hg). simpl. auto.
Qed.

(** X6: When the cell in front of a bound mower is inside its grid, [advance]
    puts the mower on that cell and keeps heading and grid; this does not
    ask that the mower be inside the grid before the step. *)
Theorem advance_moves_one_cell (m : Mow) (g : Grid) :
  _grid m = Some g ->
  is_inbound g (Position_add (_position m) (step_vector (_direction m)))
  = true ->
  advance m
  = (Return tt,
     mkMow (Position_add (_position m) (step_vector (_direction m)))
           (_direction m) (Some g)) /\
  cells_between (_position m) (_position (state_after advance m)) = 1.
Proof.
  intros Hg Hin. unfold state_after.
  rewrite (advance_bound m g Hg). cbv zeta. rewrite Hin.
  split; [reflexivity|].
  unfold cells_between. simpl.
  destruct (_direction m); simpl; lia.
Qed.

Lemma advance_moves_one_cell_witness :
  advance parked = (Return tt, at_west_edge) /\
  cells_between (_position parked) (_position (state_after advance parked)) = 1.
Proof.
  apply (advance_moves_one_cell parked lawn); reflexivity.
Defined.

(** [advance] never moves a mower by more than one cell. *)
Lemma advance_at_most_one_cell (m : Mow) :
  0 <= cells_between (_position m) (_position (state_after advance m)) <= 1.
Proof.
  unfold state_after, cells_between. destruct (_grid m) as [g|] eqn:Hg.
  - rewrite (advance_bound m g Hg). cbv zeta.
    destruct (is_inbound g (Position_add _ _)); simpl;
      destruct (_direction m); simpl; lia.
  - rewrite (advance_unbound m Hg). simpl. lia.
Qed.

(** ** Steps in a row *)

Lemma stopped_at_edge_0 (g : Grid) (p : Position) (d : Direction) :
  is_inbound g p = true -> stopped_at_edge g p d 0 = p.
Proof.
  intros Hin. apply is_inbound_true in Hin.
  destruct p as [x y]. simpl in Hin.
  destruct d; unfold stopped_at_edge; simpl; f_equal; lia.
Qed.

(** One [advance] of a mower on its grid, as a step of [stopped_at_edge]. *)
Lemma advance_stopped_at_edge (m : Mow) (g : Grid) :
  on_grid g m ->
  advance m
  = (Return tt,
     mkMow (stopped_at_edge g (_position m) (_direction m) 1)
           (_direction m) (Some g)).
Proof.
  intros [Hg Hin]. rewrite (advance_bound m g Hg). cbv zeta.
  destruct m as [[x y] d gr]. simpl in *. subst gr.
  apply is_inbound_true in Hin. simpl in Hin.
  destruct (is_inbound g (Position_add _ _)) eqn:Hnext.
  - apply is_inbound_true in Hnext. do 2 f_equal.
    destruct d; unfold Position_add; simpl in *; f_equal; lia.
  - apply is_inbound_false in Hnext. do 2 f_equal.
    destruct d; unfold Position_add; simpl in *; f_equal; lia.
Qed.

Lemma stopped_at_edge_inbound (g : Grid) (p : Position) (d : Direction) (n : Z) :
  0 <= n -> is_inbound g p = true ->
  is_inbound g (stopped_at_edge g p d n) = true.
Proof.
  intros Hn Hin. apply is_inbound_true in Hin. apply is_inbound_true.
  destruct d; cbn [stopped_at_edge _x _y]; lia.
Qed.

Lemma stopped_at_edge_add (g : Grid) (p : Position) (d : Direction) (n : Z) :
  0 <= n -> is_inbound g p = true ->
  stopped_at_edge g (stopped_at_edge g p d 1) d n
  = stopped_at_edge g p d (1 + n).
Proof.
  intros Hn Hin. apply is_inbound_true in Hin.
  destruct d; cbn [stopped_at_edge _x _y]; f_equal; lia.
Qed.

(** X7: [n] calls of [advance] on a mower inside its grid never raise and
    carry it [n] cells along its heading, or to the last cell before the
    edge when the edge is nearer; the other coordinate, the heading and the
    grid are untouched. *)
Theorem advance_repeated_stops_at_edge (m : Mow) (g : Grid) (n : nat) :
  on_grid g m ->
  repeat_call n advance m
  = (Return tt,
     mkMow (stopped_at_edge g (_position m) (_direction m) (Z.of_nat n))
           (_direction m) (Some g)).
Proof.
  revert m. induction n as [|n IH]; intros m Hm.
  - destruct Hm as [Hg Hin]. simpl repeat_call. unfold ret.
    rewrite (stopped_at_edge_0 g _ _ Hin).
    destruct m as [p d gr]. simpl in *. subst gr. reflexivity.
  - simpl repeat_call. unfold bind.
    rewrite (advance_stopped_at_edge m g Hm).
    destruct Hm as [Hg Hin].
    rewrite IH.
    + simpl _position. simpl _direction.
      rewrite stopped_at_edge_add by (try lia; exact Hin).
      replace (1 + Z.of_nat n) with (Z.of_nat (Datatypes.S n)) by lia.
      reflexivity.
    + split; [reflexivity|]. simpl.
      apply stopped_at_edge_inbound; [lia | exact Hin].
Qed.

Lemma advance_repeated_stops_at_edge_witness :
  repeat_call 7 advance (mkMow (mkPosition 3 3) E (Some lawn))
  = (Return tt,
     mkMow (stopped_at_edge lawn (mkPosition 3 3) E (Z.of_nat 7)) E
           (Some lawn)).
Proof.
  apply (advance_repeated_stops_at_edge
           (mkMow (mkPosition 3 3) E (Some lawn)) lawn 7).
  split; reflexivity.
Defined.

Example advance_repeated_example :
  repeat_call 7 advance (mkMow (mkPosition 3 3) E (Some lawn))
  = (Return tt, mkMow (mkPosition 5 3) E (Some lawn)).
Proof. reflexivity. Qed.

(** ** The association never changes again *)

Lemma rotate_keeps_grid (way : Rotation) (m : Mow) :
  _grid (state_after (rotate way) m) = _grid m /\
  _position (state_after (rotate way) m) = _position m.
Proof.
  unfold state_after. destruct (rotate_returns way m) as [d [-> _]].
  split; reflexivity.
Qed.

Lemma execute_instruction_keeps_grid (c : ascii) (m : Mow) :
  _grid (state_after (execute_instruction c) m) = _grid m.
Proof.
  destruct (recognized c) eqn:Hrec.
  - destruct (recognized_cases c Hrec) as [-> | [-> | ->]].
    + apply (rotate_keeps_grid G m).
    + apply (rotate_keeps_grid D m).
    + apply (advance_keeps_heading_and_grid m).
  - unfold state_after. rewrite (execute_instruction_other c m Hrec).
    reflexivity.
Qed.

Lemma execute_path_keeps_grid (path : string) (m : Mow) :
  _grid (state_after (execute_path path) m) = _grid m.
Proof.
  revert m. induction path as [|c rest IH]; intros m.
  - reflexivity.
  - pose proof (execute_instruction_keeps_grid c m) as Hstep.
    unfold state_after in *. simpl execute_path. unfold bind.
    destruct (execute_instruction c m) as [[[]|e] m']; simpl in Hstep.
    + rewrite IH. exact Hstep.
    + exact Hstep.
Qed.

Lemma perform_keeps_grid (op : operation) (m : Mow) :
  _grid (state_after (perform op) m) = _grid m.
Proof.
  destruct op as [way | | path | pos | d]; simpl perform.
  - apply rotate_keeps_grid.
  - apply advance_keeps_heading_and_grid.
  - apply execute_path_keeps_grid.
  - reflexivity.
  - reflexivity.
Qed.

(** A further [associate_to_grid] on a bound mower leaves it as it is. *)
Lemma associate_to_grid_bound_unchanged (m : Mow) (g g' : Grid) :
  _grid m = Some g -> state_after (associate_to_grid g') m = m.
Proof.
  intros Hg. unfold state_after, associate_to_grid, bind, get_self, raise.
  destruct (is_inbound g' (_position m)); simpl; [rewrite Hg|]; reflexivity.
Qed.

(** X8: No sequence of [rotate], [advance], [execute_path] and setter calls
    changes the grid of a mower, whatever the calls return or raise: an
    unbound mower stays unbound and a bound one keeps its grid. *)
Theorem operations_keep_grid (ops : list operation) (m : Mow) :
  _grid (run_operations ops m) = _grid m.
Proof.
  revert m. induction ops as [|op ops IH]; intros m.
  - reflexivity.
  - simpl. rewrite IH. apply perform_keeps_grid.
Qed.

(** X9: Once a mower holds a grid it holds that grid for good: no sequence of
    calls of the public interface, [associate_to_grid] with any grid
    included, unbinds it or binds it to another grid. *)
Theorem association_is_permanent (calls : list call) (m : Mow) (g : Grid) :
  _grid m = Some g -> _grid (run_calls calls m) = Some g.
Proof.
  revert m. induction calls as [|c calls IH]; intros m Hg.
  - exact Hg.
  - simpl. apply IH. destruct c as [g' | op]; simpl perform_call.
    + rewrite (associate_to_grid_bound_unchanged m g g' Hg). exact Hg.
    + rewrite perform_keeps_grid. exact Hg.
Qed.

Lemma association_is_permanent_witness :
  _grid
    (run_calls
       [CallOperation (OpSetPosition (mkPosition 8 8));
        CallAssociate (mkGrid 0 0 9 9);
        CallOperation (OpExecutePath "DAA");
        CallAssociate lawn]
       parked)
  = Some lawn.
Proof.
  apply (association_is_permanent
           [CallOperation (OpSetPosition (mkPosition 8 8));
            CallAssociate (mkGrid 0 0 9 9);
            CallOperation (OpExecutePath "DAA");
            CallAssociate lawn]
           parked lawn).
  reflexivity.
Defined.

(** ** When a path raises *)

Lemma execute_path_bound_returns (path : string) (m : Mow) (g : Grid) :
  _grid m = Some g -> outcome (execute_path path) m = Return tt.
Proof.
  revert m. induction path as [|c rest IH]; intros m Hg.
  - reflexivity.
  - pose proof (execute_instruction_keeps_grid c m) as Hkeep.
    unfold outcome, state_after in *. simpl execute_path. unfold bind.
    destruct (recognized c) eqn:Hrec.
    + destruct (recognized_cases c Hrec) as [-> | [-> | ->]].
      * rewrite execute_instruction_G in *.
        destruct (rotate_returns G m) as [d [Hrot _]]. rewrite Hrot in *.
        apply IH. exact Hg.
      * rewrite execute_instruction_D in *.
        destruct (rotate_returns D m) as [d [Hrot _]]. rewrite Hrot in *.
        apply IH. exact Hg.
      * rewrite execute_instruction_A in *.
        rewrite (advance_bound m g Hg) in *. cbv zeta in *.
        destruct (is_inbound g (Position_add _ _)); apply IH;
          [reflexivity | exact Hg].
    + rewrite (execute_instruction_other c m Hrec). apply IH. exact Hg.
Qed.

Lemma execute_path_unbound_raises (path : string) (m : Mow) :
  _grid m = None -> occurs "A" path = true ->
  outcome (execute_path path) m
  = Raise (GridPlacementException "No associated grid").
Proof.
  revert m. induction path as [|c rest IH]; intros m Hg Hocc.
  - discriminate Hocc.
  - pose proof (execute_instruction_keeps_grid c m) as Hkeep.
    unfold outcome, state_after in *. simpl execute_path. unfold bind.
    destruct (recognized c) eqn:Hrec.
    + destruct (recognized_cases c Hrec) as [-> | [-> | ->]].
      * rewrite execute_instruction_G in *.
        destruct (rotate_returns G m) as [d [Hrot _]]. rewrite Hrot in *.
        apply IH; [exact Hg | exact Hocc].
      * rewrite execute_instruction_D in *.
        destruct (rotate_returns D m) as [d [Hrot _]]. rewrite Hrot in *.
        apply IH; [exact Hg | exact Hocc].
      * rewrite execute_instruction_A, (advance_unbound m Hg). reflexivity.
    + rewrite (execute_instruction_other c m Hrec).
      apply IH; [exact Hg|].
      cbn [occurs] in Hocc. apply orb_true_iff in Hocc.
      destruct Hocc as [Hc | Hocc]; [|exact Hocc].
      apply Ascii.eqb_eq in Hc. subst c. discriminate Hrec.
Qed.

(** X10: [execute_path] raises exactly when the mower has no grid and the path
    holds an ["A"]; what it raises is then the exception of [advance],
    never a [KeyError] of [Rotation[i]] or a [ValueError] of
    [Direction(...)].  On a bound mower every path returns. *)
Theorem execute_path_raises_iff (path : string) (m : Mow) :
  ((exists e, outcome (execute_path path) m = Raise e) <->
   _grid m = None /\ occurs "A" path = true) /\
  (forall e, outcome (execute_path path) m = Raise e ->
     e = GridPlacementException "No associated grid").
Proof.
  destruct (_grid m) as [g|] eqn:Hg.
  - rewrite (execute_path_bound_returns path m g Hg). split.
    + split; [intros [e He]; discriminate He | intros [H _]; discriminate H].
    + intros e He. discriminate He.
  - destruct (occurs "A" path) eqn:Hocc.
    + rewrite (execute_path_unbound_raises path m Hg Hocc). split.
      * split; [auto | intros _; eexists; reflexivity].
      * intros e He. injection He as <-. reflexivity.
    + destruct (execute_path_without_advance path m Hocc) as [d Hret].
      unfold outcome. rewrite Hret. simpl. split.
      * split; [intros [e He]; discriminate He | intros [_ H]; discriminate H].
      * intros e He. discriminate He.
Qed.

(** ** What a path does to heading and position *)

Lemma execute_path_step (c : ascii) (rest : string) (m : Mow) :
  execute_path (String c rest) m
  = match execute_instruction c m with
    | (Return _, m') => execute_path rest m'
    | (Raise e, m') => (Raise e, m')
    end.
Proof. reflexivity. Qed.

Lemma count_char_step (c c' : ascii) (rest : string) :
  count_char c (String c' rest)
  = (if Ascii.eqb c c' then 1 else 0) + count_char c rest.
Proof. reflexivity. Qed.

Lemma count_char_nonneg (c : ascii) (path : string) : 0 <= count_char c path.
Proof.
  induction path as [|c' rest IH]; [reflexivity|].
  rewrite count_char_step. destruct (Ascii.eqb c c'); lia.
Qed.

(** X11: The heading after a path that returned is the heading before, turned
    by the number of ["D"] minus the number of ["G"] in the path, modulo 4:
    unrecognized characters and steps do not count. *)
Theorem execute_path_heading (path : string) (m : Mow) :
  outcome (execute_path path) m = Return tt ->
  Direction_value (_direction (state_after (execute_path path) m))
  = (Direction_value (_direction m)
     + count_char "D" path - count_char "G" path) mod 4.
Proof.
  revert m. induction path as [|c rest IH]; intros m Hret.
  - simpl. rewrite Z.add_0_r, Z.sub_0_r.
    symmetry. apply Z.mod_small, Direction_value_range.
  - unfold outcome, state_after in *. rewrite execute_path_step in *.
    rewrite !count_char_step.
    destruct (recognized c) eqn:Hrec.
    + destruct (recognized_cases c Hrec) as [-> | [-> | ->]].
      * rewrite execute_instruction_G in *.
        destruct (rotate_returns G m) as [d [Hrot Hd]]. rewrite Hrot in *.
        rewrite (IH _ Hret). simpl _direction. rewrite Hd.
        change (Rotation_value G) with (-1).
        change (Ascii.eqb "D" "G") with false.
        change (Ascii.eqb "G" "G") with true. cbv iota.
        rewrite <- Z.add_sub_assoc, Z.add_mod_idemp_l by lia.
        f_equal; lia.
      * rewrite execute_instruction_D in *.
        destruct (rotate_returns D m) as [d [Hrot Hd]]. rewrite Hrot in *.
        rewrite (IH _ Hret). simpl _direction. rewrite Hd.
        change (Rotation_value D) with 1.
        change (Ascii.eqb "D" "D") with true.
        change (Ascii.eqb "G" "D") with false. cbv iota.
        rewrite <- Z.add_sub_assoc, Z.add_mod_idemp_l by lia.
        f_equal; lia.
      * rewrite execute_instruction_A in *.
        pose proof (advance_keeps_heading_and_grid m) as [Hdir _].
        unfold state_after in Hdir.
        destruct (advance m) as [[[]|e] m']; [|discriminate Hret].
        rewrite (IH _ Hret). simpl in Hdir. rewrite Hdir.
        change (Ascii.eqb "D" "A") with false.
        change (Ascii.eqb "G" "A") with false. cbv iota.
        f_equal; lia.
    + rewrite (execute_instruction_other c m Hrec) in *.
      rewrite (IH _ Hret).
      unfold recognized in Hrec. apply orb_false_iff in Hrec.
      destruct Hrec as [Hrec _]. apply orb_false_iff in Hrec.
      destruct Hrec as [HG HD].
      rewrite Ascii.eqb_sym in HG. rewrite Ascii.eqb_sym in HD.
      rewrite HG, HD. f_equal; lia.
Qed.

Lemma execute_path_heading_witness :
  Direction_value
    (_direction (state_after (execute_path "GAxGDAGG") parked))
  = (Direction_value (_direction parked)
     + count_char "D" "GAxGDAGG" - count_char "G" "GAxGDAGG") mod 4.
Proof.
  apply (execute_path_heading "GAxGDAGG" parked). reflexivity.
Defined.

Lemma cells_between_refl (p : Position) : cells_between p p = 0.
Proof. unfold cells_between. lia. Qed.

Lemma cells_between_triangle (p q r : Position) :
  cells_between p r <= cells_between p q + cells_between q r.
Proof. unfold cells_between. lia. Qed.

Lemma execute_instruction_cells (c : ascii) (m : Mow) :
  cells_between (_position m)
    (_position (state_after (execute_instruction c) m))
  <= (if Ascii.eqb "A" c then 1 else 0).
Proof.
  destruct (recognized c) eqn:Hrec.
  - destruct (recognized_cases c Hrec) as [-> | [-> | ->]].
    + pose proof (rotate_keeps_grid G m) as [_ Hpos].
      unfold state_after in *. rewrite execute_instruction_G, Hpos.
      rewrite cells_between_refl. simpl. lia.
    + pose proof (rotate_keeps_grid D m) as [_ Hpos].
      unfold state_after in *. rewrite execute_instruction_D, Hpos.
      rewrite cells_between_refl. simpl. lia.
    + apply (advance_at_most_one_cell m).
  - unfold state_after. rewrite (execute_instruction_other c m Hrec).
    cbn [snd]. rewrite cells_between_refl. destruct (Ascii.eqb "A" c); lia.
Qed.

(** X12: A path moves the mower by at most as many cells as it holds ["A"]s,
    whether it returns or raises, and whether the mower is bound or not. *)
Theorem execute_path_at_most_count_cells (path : string) (m : Mow) :
  cells_between (_position m) (_position (state_after (execute_path path) m))
  <= count_char "A" path.
Proof.
  revert m. induction path as [|c rest IH]; intros m.
  - simpl. rewrite cells_between_refl. lia.
  - pose proof (execute_instruction_cells c m) as Hstep.
    unfold state_after in *. rewrite execute_path_step, count_char_step.
    destruct (execute_instruction c m) as [[[]|e] m']; cbn [snd] in *.
    + pose proof (IH m') as Hrest.
      pose proof (cells_between_triangle (_position m) (_position m')
                    (_position (snd (execute_path rest m')))) as Htri.
      destruct (Ascii.eqb "A" c); lia.
    + pose proof (count_char_nonneg "A" rest).
      destruct (Ascii.eqb "A" c); lia.
Qed.

Lemma execute_path_about_turn (rest : string) (m : Mow) :
  execute_path (String "D" (String "D" rest)) m
  = execute_path rest
      (mkMow (_position m) (opposite (_direction m)) (_grid m)).
Proof. destruct m as [p d g]. destruct d; reflexivity. Qed.

Lemma step_vector_opposite (p : Position) (d : Direction) :
  Position_add (Position_add p (step_vector d)) (step_vector (opposite d)) = p.
Proof.
  destruct p as [x y]. destruct d; unfold Position_add; simpl; f_equal; lia.
Qed.

(** X13: A step that moved is undone by an about-turn, a step and an
    about-turn: on a mower inside its grid whose next cell is inside too,
    the path ["ADDADD"] returns and leaves the mower as it was. *)
Theorem execute_path_step_and_back (m : Mow) (g : Grid) :
  on_grid g m ->
  is_inbound g (Position_add (_position m) (step_vector (_direction m)))
  = true ->
  execute_path "ADDADD" m = (Return tt, m).
Proof.
  intros [Hg Hin] Hnext.
  destruct m as [p d gr]. cbn [_position _direction _grid] in *. subst gr.
  rewrite execute_path_step, execute_instruction_A.
  rewrite (advance_bound (mkMow p d (Some g)) g eq_refl). cbv zeta.
  cbn [_position _direction _grid]. rewrite Hnext.
  rewrite execute_path_about_turn. cbn [_position _direction _grid].
  rewrite execute_path_step, execute_instruction_A.
  rewrite (advance_bound
             (mkMow (Position_add p (step_vector d)) (opposite d) (Some g))
             g eq_refl).
  cbv zeta.
  cbn [_position _direction _grid]. rewrite step_vector_opposite, Hin.
  rewrite execute_path_about_turn. cbn [_position _direction _grid].
  destruct d; reflexivity.
Qed.

Lemma execute_path_step_and_back_witness :
  execute_path "ADDADD" parked = (Return tt, parked).
Proof.
  apply (execute_path_step_and_back parked lawn).
  - split; reflexivity.
  - reflexivity.
Defined.

(** ** Printing *)

(** Reading back the decimal rendering of an integer gives the integer. *)
Lemma str_int_parses (z : Z) :
  NilZero.int_of_string (str_int z) = Some (Z.to_int z).
Proof.
  unfold str_int. apply NilZero.isi.
  - destruct z as [|p|p]; simpl; try discriminate.
    intros H. injection H as H.
    apply (DecimalPos.Unsigned.to_uint_nonnil p H).
  - destruct z as [|p|p]; simpl; try discriminate.
    intros H. injection H as H.
    apply (DecimalPos.Unsigned.to_uint_nonnil p H).
Qed.

Lemma str_int_inj (a b : Z) : str_int a = str_int b -> a = b.
Proof.
  intros H. apply DecimalZ.to_int_inj.
  pose proof (str_int_parses a) as Ha. rewrite H, str_int_parses in Ha.
  injection Ha as Ha. symmetry. exact Ha.
Qed.

Lemma string_of_uint_no_space (d : Decimal.uint) :
  occurs " " (NilEmpty.string_of_uint d) = false.
Proof. induction d; simpl; auto. Qed.

Lemma string_of_uint_zero_no_space (d : Decimal.uint) :
  occurs " " (NilZero.string_of_uint d) = false.
Proof.
  destruct d; try reflexivity;
    exact (string_of_uint_no_space (Decimal.D0 d))
    || exact (string_of_uint_no_space (Decimal.D1 d))
    || exact (string_of_uint_no_space (Decimal.D2 d))
    || exact (string_of_uint_no_space (Decimal.D3 d))
    || exact (string_of_uint_no_space (Decimal.D4 d))
    || exact (string_of_uint_no_space (Decimal.D5 d))
    || exact (string_of_uint_no_space (Decimal.D6 d))
    || exact (string_of_uint_no_space (Decimal.D7 d))
    || exact (string_of_uint_no_space (Decimal.D8 d))
    || exact (string_of_uint_no_space (Decimal.D9 d)).
Qed.

Lemma str_int_no_space (z : Z) : occurs " " (str_int z) = false.
Proof.
  unfold str_int, NilZero.string_of_int.
  destruct (Z.to_int z) as [d|d].
  - apply string_of_uint_zero_no_space.
  - cbn [occurs]. apply orb_false_iff. split; [reflexivity|].
    apply string_of_uint_zero_no_space.
Qed.

(** Two strings cut at their first space are equal part by part. *)
Lemma append_space_inj (s1 s2 r1 r2 : string) :
  occurs " " s1 = false -> occurs " " s2 = false ->
  (s1 ++ String " " r1 = s2 ++ String " " r2)%string ->
  s1 = s2 /\ r1 = r2.
Proof.
  revert s2. induction s1 as [|c1 s1 IH]; intros [|c2 s2] H1 H2 Heq;
    simpl in Heq.
  - injection Heq as Heq. auto.
  - injection Heq as Hc _. subst c2. discriminate H2.
  - injection Heq as Hc _. subst c1. discriminate H1.
  - injection Heq as Hc Heq. subst c2.
    cbn [occurs] in H1, H2.
    apply orb_false_iff in H1. apply orb_false_iff in H2.
    destruct (IH s2 (proj2 H1) (proj2 H2) Heq) as [-> ->]. auto.
Qed.

Lemma Direction_name_inj (d1 d2 : Direction) :
  Direction_name d1 = Direction_name d2 -> d1 = d2.
Proof. destruct d1, d2; simpl; intros H; try reflexivity; discriminate H. Qed.

(** X14: What [__str__] prints tells position and heading apart: two mowers
    that print alike stand on the same cell with the same heading (their
    grids, which are not printed, may differ). *)
Theorem Mow_str_injective (m1 m2 : Mow) :
  Mow_str m1 = Mow_str m2 ->
  _position m1 = _position m2 /\ _direction m1 = _direction m2.
Proof.
  destruct m1 as [[x1 y1] d1 g1], m2 as [[x2 y2] d2 g2].
  unfold Mow_str, coordinate. cbn [_position _direction _x _y].
  change (" " ++ ?s)%string with (String " " s).
  intros H.
  apply append_space_inj in H; try apply str_int_no_space.
  destruct H as [Hx H].
  apply append_space_inj in H; try apply str_int_no_space.
  destruct H as [Hy Hd].
  apply str_int_inj in Hx. apply str_int_inj in Hy.
  apply Direction_name_inj in Hd. subst. auto.
Qed.

Lemma Mow_str_injective_witness :
  _position parked = _position (mkMow (mkPosition 1 1) W None) /\
  _direction parked = _direction (mkMow (mkPosition 1 1) W None).
Proof.
  apply (Mow_str_injective parked (mkMow (mkPosition 1 1) W None)).
  reflexivity.
Defined.
